(** * Room state folding (lib/models/room-state.js)

    A shallow embedding of [RoomState] from matrix-js-sdk and the properties
    of its state fold, power-level projection and typing projection.

    Modelling conventions.
    - JavaScript objects used as dictionaries ([members], [stateEvents],
      [content.users]) are finite maps [gmap string _].  Keys are Matrix
      identifiers and event types, so properties inherited from
      [Object.prototype] are out of the picture.
    - [undefined] is [None]; an absent field of an object reads [undefined].
    - Power levels are integers ([Z]), as the event contract types them,
      so [NaN], infinities and fractions do not occur; the one division of
      the file, [(powerLevel * 100) / maxLevel], is taken over the
      rationals ([Q]).
    - A method that mutates [this] or may [throw] is a computation in the
      monad [Js]: it maps the store to a completion (normal or thrown) and
      the store it leaves behind.  A [throw] keeps the mutations made so far.
    - A [RoomMember] object is reachable only through the one slot of
      [members] it was stored in, so a reference to a member is that slot's
      key and mutating the object rewrites the slot. *)

From Stdlib Require Import ZArith QArith.
From stdpp Require Import gmap strings list fin_maps.

Close Scope Q_scope.
Open Scope Z_scope.

(** ** JavaScript values and completions *)

(** What a JSON field that should hold a list of user identifiers may hold. *)
Inductive JsValue :=
| JsUndefined
| JsNull
| JsBool (b : bool)
| JsNumber (n : Z)
| JsString (s : string)
| JsObject
| JsArray (items : list string).

Inductive JsError :=
| Error (message : string)
| TypeError.

Inductive Completion (A : Type) :=
| Normal (a : A)
| Throw (e : JsError).
Arguments Normal {A} a.
Arguments Throw {A} e.

(** [x || d] on a possibly-undefined number: [undefined] and [0] are falsy. *)
Definition js_or (x : option Z) (d : Z) : Z :=
  match x with
  | Some v => if v =? 0 then d else v
  | None => d
  end.

(** A property key: [obj[undefined]] reads the key ["undefined"]. *)
Definition propKey (k : option string) : string :=
  match k with
  | Some s => s
  | None => "undefined"
  end.

(** ** Events *)

(** Modelled from the spec: the payload of [MatrixEvent.getContent()]
    (lib/models/event.js is not part of the sources).  The fields are the
    ones section 6 lists: power-levels content [{users, users_default}],
    typing content [{user_ids}] and the membership value of a member event.
    A field that is absent is [None] ([JsUndefined] for [user_ids]). *)
Record Content := mkContent {
  users : option (gmap string Z);
  users_default : option Z;
  user_ids : JsValue;
  membership : option string
}.

(** Modelled from the spec: the accessor contract of [MatrixEvent]
    (section 6): room identifier, type, state key (a string or [undefined])
    and content. *)
Record MatrixEvent := mkEvent {
  getRoomId : string;
  getType : string;
  getStateKey : option string;
  getContent : Content
}.

(** Modelled from the spec: [MatrixEvent.isState()]; an undefined state key
    designates a non-state event (section 6). *)
Definition isState (event : MatrixEvent) : bool :=
  match getStateKey event with
  | Some _ => true
  | None => false
  end.

(** ** Members *)

(** Modelled from the spec: the member record of section 3
    (lib/models/room-member.js is not part of the sources). *)
Record RoomMember := mkMember {
  userId : string;
  displayName : string;
  typing : bool;
  powerLevel : Z;
  powerLevelNorm : Q
}.

Definition set_displayName (v : string) (m : RoomMember) : RoomMember :=
  mkMember (userId m) v (typing m) (powerLevel m) (powerLevelNorm m).
Definition set_typing (v : bool) (m : RoomMember) : RoomMember :=
  mkMember (userId m) (displayName m) v (powerLevel m) (powerLevelNorm m).
Definition set_powerLevel (v : Z) (m : RoomMember) : RoomMember :=
  mkMember (userId m) (displayName m) (typing m) v (powerLevelNorm m).
Definition set_powerLevelNorm (v : Q) (m : RoomMember) : RoomMember :=
  mkMember (userId m) (displayName m) (typing m) (powerLevel m) v.

(** Modelled from the spec: [new RoomMember(event)]; the record is derived
    for the event's state key as the user identifier, not typing, with the
    default power metrics. *)
Definition newRoomMember (event : MatrixEvent) : RoomMember :=
  mkMember (propKey (getStateKey event)) "" false 0 0%Q.

(** ** The store *)

Record RoomState := mkRoomState {
  roomId : string;
  members : gmap string RoomMember;
  stateEvents : gmap string (gmap string MatrixEvent);
  paginationToken : option string
}.

(** [new RoomState(roomId)] *)
Definition newRoomState (roomId : string) : RoomState :=
  mkRoomState roomId ∅ ∅ None.

Definition set_members (f : gmap string RoomMember → gmap string RoomMember)
    (self : RoomState) : RoomState :=
  mkRoomState (roomId self) (f (members self)) (stateEvents self)
    (paginationToken self).
Definition set_stateEvents
    (f : gmap string (gmap string MatrixEvent) →
         gmap string (gmap string MatrixEvent))
    (self : RoomState) : RoomState :=
  mkRoomState (roomId self) (members self) (f (stateEvents self))
    (paginationToken self).

(** ** The monad of methods of the store *)

Definition Js (A : Type) : Type := RoomState → Completion A * RoomState.

Definition js_ret {A} (a : A) : Js A := λ self, (Normal a, self).
Definition js_bind {A B} (k : A → Js B) (c : Js A) : Js B :=
  λ self,
    match c self with
    | (Normal a, self') => k a self'
    | (Throw e, self') => (Throw e, self')
    end.
Definition throw {A} (e : JsError) : Js A := λ self, (Throw e, self).
Definition this : Js RoomState := λ self, (Normal self, self).
Definition mutate (f : RoomState → RoomState) : Js unit :=
  λ self, (Normal tt, f self).

#[export] Instance Js_ret : MRet Js := @js_ret.
#[export] Instance Js_bind : MBind Js := @js_bind.

(** ** utils *)

Module utils.

(** Modelled from the spec: [utils.values(obj)], the own property values
    of [obj] (lib/utils.js is not part of the sources). *)
Definition values {V} (obj : gmap string V) : list V :=
  (map_to_list obj).*2.

(** Modelled from the spec: [utils.forEach(array, fn)], [fn] called on
    each element in order; a [throw] of [fn] ends the loop. *)
Fixpoint forEach {A} (array : list A) (fn : A → Js unit) : Js unit :=
  match array with
  | [] => mret tt
  | x :: rest => fn x ≫= λ _, forEach rest fn
  end.

(** Modelled from the spec: [utils.isArray(value)]. *)
Definition isArray (value : JsValue) : bool :=
  match value with
  | JsArray _ => true
  | _ => false
  end.

End utils.

(** The elements of an array value (none for any other value). *)
Definition arrayItems (value : JsValue) : list string :=
  match value with
  | JsArray items => items
  | _ => []
  end.

(** [utils.values(self.members)]: the member objects of the store, each
    named by the slot that holds it. *)
Definition memberRefs (self : RoomState) : list string :=
  (map_to_list (members self)).*1.

(** In-place mutation of the member object behind [ref] by [f]; when [f]
    throws, the object is as it was. *)
Definition updateMember (ref : string)
    (f : RoomMember → Completion RoomMember) : Js unit :=
  λ self,
    match members self !! ref with
    | None => (Normal tt, self)
    | Some m =>
        match f m with
        | Normal m' => (Normal tt, set_members (<[ref := m']>) self)
        | Throw e => (Throw e, self)
        end
    end.

(** ** RoomState.prototype *)

Inductive StateEventsResult :=
| EventArray (events : list MatrixEvent)
| SingleEvent (event : option MatrixEvent).


(** [getStateEvents(eventType, stateKey)]; [SingleEvent None] is [null]. *)
Definition getStateEvents (self : RoomState) (eventType : string)
    (stateKey : option string) : StateEventsResult :=
  match stateEvents self !! eventType with
  | None =>
      match stateKey with
      | None => EventArray []
      | Some _ => SingleEvent None
      end
  | Some slots =>
      match stateKey with
      | None => EventArray (utils.values slots)
      | Some key => SingleEvent (slots !! key)
      end
  end.

(** [maxLevel] of [_setPowerLevel]: [users_default || 0], then the maximum
    with every listed level ([utils.values(undefined)] has no element). *)
Definition maxLevelOf (content : Content) : Z :=
  fold_left Z.max
    (match users content with
     | Some us => utils.values us
     | None => []
     end)
    (js_or (users_default content) 0).

(** [_setPowerLevel(powerLevelEvent, roomMember)], as a function of the
    member object it mutates.  Reading [users[roomMember.userId]] when
    [users] is [undefined] throws a [TypeError], before any assignment. *)
Definition _setPowerLevel (powerLevelEvent : MatrixEvent)
    (roomMember : RoomMember) : Completion RoomMember :=
  let content := getContent powerLevelEvent in
  let maxLevel := maxLevelOf content in
  match users content with
  | None => Throw TypeError
  | Some us =>
      let level :=
        js_or (us !! userId roomMember) (js_or (users_default content) 0) in
      let roomMember := set_powerLevel level roomMember in
      let roomMember := set_powerLevelNorm 0%Q roomMember in
      Normal
        (if 0 <? maxLevel
         then set_powerLevelNorm
                (inject_Z (powerLevel roomMember * 100) / inject_Z maxLevel)%Q
                roomMember
         else roomMember)
  end.

(** The index write of [setStateEvents]: the slot table of the event's type
    is created when [undefined], then the event overwrites its slot. *)
Definition indexEvent (event : MatrixEvent)
    (idx : gmap string (gmap string MatrixEvent)) :
    gmap string (gmap string MatrixEvent) :=
  let slots := default ∅ (idx !! getType event) in
  <[getType event := <[propKey (getStateKey event) := event]> slots]> idx.

Section RoomState.

(** The display-name collaborator, [member.calculateDisplayName(self)]:
    the name of the member of [event] in the store [self]. *)
Variable calculateDisplayName : MatrixEvent → RoomState → string.

(** The callback of [setStateEvents]: one event folded into the store. *)
Definition foldStateEvent (event : MatrixEvent) : Js unit :=
  self ← this;
  if bool_decide (getRoomId event ≠ roomId self) then mret tt else
  if negb (isState event) then mret tt else
  let key := propKey (getStateKey event) in
  mutate (set_stateEvents (indexEvent event));;
  if bool_decide (getType event = "m.room.member") then
    self ← this;
    let member :=
      set_displayName (calculateDisplayName event self) (newRoomMember event) in
    mutate (set_members (<[key := member]>));;
    self ← this;
    match getStateEvents self "m.room.power_levels" (Some "") with
    | SingleEvent (Some pwrLvlEvent) =>
        updateMember key (_setPowerLevel pwrLvlEvent)
    | _ => mret tt
    end
  else if bool_decide (getType event = "m.room.power_levels") then
    self ← this;
    utils.forEach (memberRefs self)
      (λ member, updateMember member (_setPowerLevel event))
  else mret tt.

(** [setStateEvents(stateEvents)] *)
Definition setStateEvents (stateEvents : list MatrixEvent) : Js unit :=
  utils.forEach stateEvents foldStateEvent.

End RoomState.

(** [setTypingEvent(event)] *)
Definition setTypingEvent (event : MatrixEvent) : Js unit :=
  if bool_decide (getType event ≠ "m.typing")
  then throw (Error ("Not a typing event -> " +:+ getType event))
  else
    self ← this;
    utils.forEach (memberRefs self)
      (λ member, updateMember member (λ m, Normal (set_typing false m)));;
    let typingList := user_ids (getContent event) in
    if negb (utils.isArray typingList) then mret tt else
    utils.forEach (arrayItems typingList) (λ userId,
      self ← this;
      match members self !! userId with
      | None => mret tt
      | Some _ => updateMember userId (λ m, Normal (set_typing true m))
      end).

(** ** Callers *)

(** A call of one of the two mutating methods of the store. *)
Inductive Call :=
| CallSetStateEvents (stateEvents : list MatrixEvent)
| CallSetTypingEvent (event : MatrixEvent).

(** The store after a sequence of calls; a caller that catches what a call
    throws goes on with the store the call left behind. *)
Definition runCalls (calculateDisplayName : MatrixEvent → RoomState → string)
    (calls : list Call) (self : RoomState) : RoomState :=
  foldl (λ s c,
    match c with
    | CallSetStateEvents evs => (setStateEvents calculateDisplayName evs s).2
    | CallSetTypingEvent ev => (setTypingEvent ev s).2
    end) self calls.

(** ** Closed forms *)

(** The event passes the two guards of [setStateEvents] in a store of room
    [room]. *)
Definition accepted (room : string) (event : MatrixEvent) : bool :=
  bool_decide (getRoomId event = room) && isState event.

(** What the projection assigns, when [users] is a mapping. *)
Definition projectedLevel (us : gmap string Z) (content : Content)
    (member : RoomMember) : Z :=
  js_or (us !! userId member) (js_or (users_default content) 0).

Definition projectedNorm (level maxLevel : Z) : Q :=
  if 0 <? maxLevel then (inject_Z (level * 100) / inject_Z maxLevel)%Q
  else 0%Q.

Definition projected (us : gmap string Z) (content : Content)
    (member : RoomMember) : RoomMember :=
  let level := projectedLevel us content member in
  mkMember (userId member) (displayName member) (typing member) level
    (projectedNorm level (maxLevelOf content)).

(** The members after a typing signal naming [items]: everyone reset, then
    the listed members marked one by one. *)
Definition typingFold (items : list string)
    (ms : gmap string RoomMember) : gmap string RoomMember :=
  foldl (λ acc ref, alter (set_typing true) ref acc)
    (set_typing false <$> ms) items.

(** Every member record sits in the slot of its own user identifier. *)
Definition keyedByUserId (self : RoomState) : Prop :=
  ∀ k m, members self !! k = Some m → userId m = k.

(** A power-levels event carries a [users] mapping. *)
Definition hasUsers (event : MatrixEvent) : Prop :=
  getType event = "m.room.power_levels" → is_Some (users (getContent event)).

(** The power-levels event a member fold would re-apply carries a [users]
    mapping. *)
Definition currentHasUsers (self : RoomState) : Prop :=
  ∀ pl, getStateEvents self "m.room.power_levels" (Some "") =
          SingleEvent (Some pl) →
        is_Some (users (getContent pl)).

(** The store after the index write of an accepted event. *)
Definition indexed (event : MatrixEvent) (self : RoomState) : RoomState :=
  set_stateEvents (indexEvent event) self.

(** The store after the member record of an accepted member event is
    stored, before its power level is set. *)
Definition joined (calculateDisplayName : MatrixEvent → RoomState → string)
    (event : MatrixEvent) (self : RoomState) : RoomState :=
  set_members
    (<[propKey (getStateKey event) :=
         set_displayName (calculateDisplayName event (indexed event self))
           (newRoomMember event)]>)
    (indexed event self).

(** [s'] is [s] with some member objects mutated in place by a function
    that keeps their [userId]. *)
Definition mutatedInPlace (s s' : RoomState) : Prop :=
  roomId s' = roomId s ∧ stateEvents s' = stateEvents s ∧
  paginationToken s' = paginationToken s ∧
  ∀ k, match members s !! k, members s' !! k with
       | Some m, Some m' => userId m' = userId m
       | None, None => True
       | _, _ => False
       end.

(** ** Sample data *)

(** A naming collaborator: the member is named by its user identifier. *)
Definition nameByUserId : MatrixEvent → RoomState → string :=
  λ event _, propKey (getStateKey event).

Definition noContent : Content := mkContent None None JsUndefined None.

Definition memberEventIn (room user membership : string) : MatrixEvent :=
  mkEvent room "m.room.member" (Some user)
    (mkContent None None JsUndefined (Some membership)).

Definition memberEvent (user membership : string) : MatrixEvent :=
  memberEventIn "!room:x" user membership.

Definition powerLevelsEvent (us : option (gmap string Z)) (dflt : option Z) :
    MatrixEvent :=
  mkEvent "!room:x" "m.room.power_levels" (Some "")
    (mkContent us dflt JsUndefined None).

Definition typingEvent (room : string) (ids : JsValue) : MatrixEvent :=
  mkEvent room "m.typing" None (mkContent None None ids None).

Definition topicEvent (room : string) : MatrixEvent :=
  mkEvent room "m.room.topic" (Some "") noContent.

(** The store of room ["!room:x"] after @a:x and @b:x joined. *)
Definition twoMembers : RoomState :=
  (setStateEvents nameByUserId
     [memberEvent "@a:x" "join"; memberEvent "@b:x" "join"]
     (newRoomState "!room:x")).2.

(** ** Predicates of the further properties *)

(** The event is accepted in a store of room [room] and writes the slot
    [(ty, key)] of the index. *)
Definition writesSlot (room ty key : string) (event : MatrixEvent) : bool :=
  accepted room event && bool_decide (getType event = ty) &&
  bool_decide (propKey (getStateKey event) = key).


(** The event touches the index only: it is neither a member event nor a
    power-levels event. *)
Definition indexOnly (event : MatrixEvent) : Prop :=
  getType event ≠ "m.room.member" ∧ getType event ≠ "m.room.power_levels".




(** The member index and the member slots of the state-event index have
    the same keys. *)
Definition membersIndexed (self : RoomState) : Prop :=
  ∀ k, is_Some (members self !! k) ↔
       ∃ e, getStateEvents self "m.room.member" (Some k) =
            SingleEvent (Some e).

(** * Properties *)

(** ** Records and the monad *)

Lemma set_members_id self : set_members (λ ms, ms) self = self.
Proof. by destruct self. Qed.

Lemma set_members_compose f g self :
  set_members g (set_members f self) = set_members (λ ms, g (f ms)) self.
Proof. done. Qed.

Lemma set_members_ext f g self :
  f (members self) = g (members self) → set_members f self = set_members g self.
Proof. unfold set_members. by intros ->. Qed.

Lemma js_bind_normal {A B} (c : Js A) (k : A → Js B) self a self' :
  c self = (Normal a, self') → (c ≫= k) self = k a self'.
Proof. unfold mbind, Js_bind, js_bind. by intros ->. Qed.

Lemma js_bind_throw {A B} (c : Js A) (k : A → Js B) self e self' :
  c self = (Throw e, self') → (c ≫= k) self = (Throw e, self').
Proof. unfold mbind, Js_bind, js_bind. by intros ->. Qed.

(** ** Loops *)

Lemma forEach_app {A} (l1 l2 : list A) fn self :
  utils.forEach (l1 ++ l2) fn self =
  (utils.forEach l1 fn ≫= λ _, utils.forEach l2 fn) self.
Proof.
  revert self. induction l1 as [|x l1 IH]; intros self; simpl.
  - done.
  - unfold mbind, Js_bind, js_bind in *.
    destruct (fn x self) as [[[]|e] self1]; [apply IH | done].
Qed.

(** A loop whose body cannot throw and preserves [P] completes, with [P]. *)
Lemma forEach_invariant {A} (P : RoomState → Prop) (l : list A) fn self :
  (∀ x s, x ∈ l → P s → ∃ s', fn x s = (Normal tt, s') ∧ P s') →
  P self →
  ∃ self', utils.forEach l fn self = (Normal tt, self') ∧ P self'.
Proof.
  revert self. induction l as [|x l IH]; intros self Hfn HP; simpl.
  - by exists self.
  - destruct (Hfn x self) as (s1 & Hx & HP1); [left | done |].
    erewrite js_bind_normal by exact Hx.
    apply IH; [|done]. intros y s Hy. apply Hfn. by right.
Qed.

(** A body that always leaves [P] behind, thrown or not, makes the loop
    leave [P] behind. *)
Lemma forEach_preserves {A} (P : RoomState → Prop) (l : list A) fn self :
  (∀ x s, P s → P (fn x s).2) → P self → P (utils.forEach l fn self).2.
Proof.
  revert self. induction l as [|x l IH]; intros self Hfn HP; simpl; [done|].
  unfold mbind, Js_bind, js_bind.
  pose proof (Hfn x self HP) as Hx.
  destruct (fn x self) as [[[]|e] s1]; simpl in *; [by apply IH | done].
Qed.

(** ** Mutating member objects *)

Lemma updateMember_pure ref (f : RoomMember → RoomMember) self :
  updateMember ref (λ m, Normal (f m)) self =
  (Normal tt, set_members (alter f ref) self).
Proof.
  unfold updateMember. destruct (members self !! ref) as [m|] eqn:Hm.
  - f_equal. apply set_members_ext, map_eq. intros k.
    rewrite lookup_insert, lookup_alter.
    case_decide; subst; by rewrite ?Hm.
  - f_equal. rewrite <- (set_members_id self) at 1.
    apply set_members_ext, map_eq. intros k.
    rewrite lookup_alter. case_decide; subst; by rewrite ?Hm.
Qed.

Lemma forEach_updateMember_pure l (f : RoomMember → RoomMember) self :
  utils.forEach l (λ ref, updateMember ref (λ m, Normal (f m))) self =
  (Normal tt, set_members (λ ms, foldl (λ acc ref, alter f ref acc) ms l) self).
Proof.
  revert self. induction l as [|ref l IH]; intros self; simpl.
  - by rewrite set_members_id.
  - erewrite js_bind_normal by apply updateMember_pure.
    by rewrite IH, set_members_compose.
Qed.

Lemma foldl_alter_notin {V} (f : V → V) l (ms : gmap string V) k :
  k ∉ l → foldl (λ acc ref, alter f ref acc) ms l !! k = ms !! k.
Proof.
  revert ms. induction l as [|r l IH]; intros ms Hk; simpl; [done|].
  apply not_elem_of_cons in Hk as [Hne Hk].
  rewrite IH by done. rewrite lookup_alter. by case_decide.
Qed.

Lemma foldl_alter_NoDup {V} (f : V → V) l (ms : gmap string V) k :
  NoDup l → k ∈ l →
  foldl (λ acc ref, alter f ref acc) ms l !! k = f <$> ms !! k.
Proof.
  revert ms. induction l as [|r l IH]; intros ms Hnd Hk; simpl.
  - by apply elem_of_nil in Hk.
  - apply NoDup_cons in Hnd as [Hr Hnd].
    apply elem_of_cons in Hk as [->|Hk].
    + rewrite foldl_alter_notin by done. rewrite lookup_alter.
      by case_decide.
    + rewrite IH by done. rewrite lookup_alter.
      case_decide; [by subst|done].
Qed.

Lemma foldl_alter_idemp {V} (f : V → V) l (ms : gmap string V) k :
  (∀ v, f (f v) = f v) → k ∈ l →
  foldl (λ acc ref, alter f ref acc) ms l !! k = f <$> ms !! k.
Proof.
  intros Hf. revert ms. induction l as [|r l IH]; intros ms Hk; simpl.
  - by apply elem_of_nil in Hk.
  - destruct (decide (k ∈ l)) as [Hin|Hnin].
    + rewrite IH by done. rewrite lookup_alter.
      case_decide; [|done]. subst.
      destruct (ms !! k); simpl; by rewrite ?Hf.
    + apply elem_of_cons in Hk as [->|Hk]; [|done].
      rewrite foldl_alter_notin by done. rewrite lookup_alter.
      by case_decide.
Qed.

Lemma memberRefs_NoDup self : NoDup (memberRefs self).
Proof. apply NoDup_fst_map_to_list. Qed.

Lemma elem_of_memberRefs self k :
  k ∈ memberRefs self ↔ is_Some (members self !! k).
Proof.
  unfold memberRefs. rewrite list_elem_of_fmap. split.
  - intros ([k' m] & -> & Hin). apply elem_of_map_to_list in Hin. eauto.
  - intros [m Hm]. exists (k, m). split; [done|].
    by apply elem_of_map_to_list.
Qed.

(** Mutating every member object by [f] maps [f] over the member index. *)
Lemma forEach_members_pure (f : RoomMember → RoomMember) self :
  utils.forEach (memberRefs self)
    (λ ref, updateMember ref (λ m, Normal (f m))) self =
  (Normal tt, set_members (fmap f) self).
Proof.
  rewrite forEach_updateMember_pure. f_equal.
  apply set_members_ext, map_eq. intros k. rewrite lookup_fmap.
  destruct (decide (k ∈ memberRefs self)) as [Hin|Hnin].
  - apply foldl_alter_NoDup; [apply memberRefs_NoDup | done].
  - rewrite foldl_alter_notin by done.
    rewrite elem_of_memberRefs in Hnin.
    destruct (members self !! k); [|done]. exfalso. eauto.
Qed.

(** ** The power-level projection *)

Lemma fold_left_max_init l a : a ≤ fold_left Z.max l a.
Proof.
  revert a. induction l as [|x l IH]; intros a; simpl; [lia|].
  specialize (IH (Z.max a x)). lia.
Qed.

Lemma fold_left_max_elem l a x : x ∈ l → x ≤ fold_left Z.max l a.
Proof.
  revert a. induction l as [|y l IH]; intros a Hx; simpl.
  - by apply elem_of_nil in Hx.
  - apply elem_of_cons in Hx as [->|Hx]; [|by apply IH].
    pose proof (fold_left_max_init l (Z.max a y)). lia.
Qed.

Lemma elem_of_values {V} (obj : gmap string V) k v :
  obj !! k = Some v → v ∈ utils.values obj.
Proof.
  intros Hk. unfold utils.values. apply list_elem_of_fmap.
  exists (k, v). split; [done|]. by apply elem_of_map_to_list.
Qed.

Lemma maxLevelOf_default content :
  js_or (users_default content) 0 ≤ maxLevelOf content.
Proof. apply fold_left_max_init. Qed.

Lemma maxLevelOf_listed content us u lvl :
  users content = Some us → us !! u = Some lvl → lvl ≤ maxLevelOf content.
Proof.
  intros Hus Hu. unfold maxLevelOf. rewrite Hus.
  eapply fold_left_max_elem, elem_of_values, Hu.
Qed.

Lemma _setPowerLevel_users event us member :
  users (getContent event) = Some us →
  _setPowerLevel event member = Normal (projected us (getContent event) member).
Proof.
  intros Hus. unfold _setPowerLevel, projected, projectedNorm, projectedLevel.
  rewrite Hus. simpl. by destruct (0 <? maxLevelOf (getContent event)).
Qed.

Lemma _setPowerLevel_no_users event member :
  users (getContent event) = None →
  _setPowerLevel event member = Throw TypeError.
Proof. intros Hus. unfold _setPowerLevel. by rewrite Hus. Qed.




(** ** The typing projection *)

Lemma forEach_ext {A} (l : list A) (fn gn : A → Js unit) self :
  (∀ x s, fn x s = gn x s) → utils.forEach l fn self = utils.forEach l gn self.
Proof.
  intros Hext. revert self. induction l as [|x l IH]; intros self; simpl.
  - done.
  - unfold mbind, Js_bind, js_bind. rewrite Hext.
    destruct (gn x self) as [[[]|e] s1]; [apply IH | done].
Qed.

Lemma setTypingEvent_typing event self :
  getType event = "m.typing" →
  setTypingEvent event self =
  (Normal tt,
   set_members (typingFold (arrayItems (user_ids (getContent event)))) self).
Proof.
  intros Hty. unfold setTypingEvent.
  rewrite bool_decide_eq_false_2 by (by intros []).
  unfold mbind at 1, Js_bind at 1, js_bind at 1, this at 1.
  erewrite js_bind_normal by apply forEach_members_pure.
  destruct (utils.isArray (user_ids (getContent event))) eqn:Harr; simpl.
  - erewrite forEach_ext.
    2:{ intros u s. unfold mbind, Js_bind, js_bind, this.
        instantiate (1 := λ u, updateMember u (λ m, Normal (set_typing true m))).
        simpl. destruct (members s !! u) eqn:Hu; [done|].
        unfold updateMember. by rewrite Hu. }
    rewrite forEach_updateMember_pure. by rewrite set_members_compose.
  - destruct (user_ids (getContent event)); try discriminate Harr; done.
Qed.

Lemma typingFold_lookup items ms k :
  typingFold items ms !! k =
  (λ m, set_typing (bool_decide (k ∈ items)) m) <$> ms !! k.
Proof.
  unfold typingFold. destruct (decide (k ∈ items)) as [Hin|Hnin].
  - rewrite foldl_alter_idemp; [|done|done].
    rewrite lookup_fmap, bool_decide_eq_true_2 by done.
    by destruct (ms !! k).
  - rewrite foldl_alter_notin by done.
    by rewrite lookup_fmap, bool_decide_eq_false_2.
Qed.

(** ** The state fold *)

Lemma updateMember_mutates ref f self :
  ∃ g, (updateMember ref f self).2 = set_members g self ∧
       ∀ k, g (members self) !! k = members self !! k ∨
            ∃ m m', members self !! k = Some m ∧ f m = Normal m' ∧
                    g (members self) !! k = Some m'.
Proof.
  unfold updateMember. destruct (members self !! ref) as [m|] eqn:Hm.
  - destruct (f m) as [m'|e] eqn:Hf; simpl.
    + exists (<[ref := m']>). split; [done|]. intros k.
      rewrite lookup_insert. case_decide; subst; eauto 10.
    + exists (λ ms, ms). rewrite set_members_id. eauto.
  - exists (λ ms, ms). rewrite set_members_id. eauto.
Qed.

Lemma mutatedInPlace_refl s : mutatedInPlace s s.
Proof.
  repeat split. intros k. by destruct (members s !! k).
Qed.

Lemma mutatedInPlace_trans s1 s2 s3 :
  mutatedInPlace s1 s2 → mutatedInPlace s2 s3 → mutatedInPlace s1 s3.
Proof.
  intros (Hr1 & He1 & Hp1 & Hm1) (Hr2 & He2 & Hp2 & Hm2).
  repeat split; try congruence. intros k.
  specialize (Hm1 k). specialize (Hm2 k).
  destruct (members s1 !! k), (members s2 !! k), (members s3 !! k);
    try done; congruence.
Qed.

Lemma _setPowerLevel_userId event m m' :
  _setPowerLevel event m = Normal m' → userId m' = userId m.
Proof.
  destruct (users (getContent event)) as [us|] eqn:Hus.
  - rewrite (_setPowerLevel_users _ us) by done. by intros [= <-].
  - by rewrite _setPowerLevel_no_users.
Qed.

Lemma updateMember_mutatedInPlace ref f self :
  (∀ m m', f m = Normal m' → userId m' = userId m) →
  mutatedInPlace self (updateMember ref f self).2.
Proof.
  intros Hf. destruct (updateMember_mutates ref f self) as (g & -> & Hg).
  repeat split. intros k. simpl.
  destruct (Hg k) as [->|(m & m' & -> & Hfm & ->)].
  - by destruct (members self !! k).
  - eauto.
Qed.

Lemma forEach_updateMember_mutatedInPlace l f self :
  (∀ m m', f m = Normal m' → userId m' = userId m) →
  mutatedInPlace self
    (utils.forEach l (λ ref, updateMember ref f) self).2.
Proof.
  intros Hf.
  apply (forEach_preserves (mutatedInPlace self)); [|apply mutatedInPlace_refl].
  intros ref s Hs. eapply mutatedInPlace_trans; [exact Hs|].
  by apply updateMember_mutatedInPlace.
Qed.

Section Fold.

Context (calculateDisplayName : MatrixEvent → RoomState → string).

Local Abbreviation foldEvent := (foldStateEvent calculateDisplayName).
Local Abbreviation foldEvents := (setStateEvents calculateDisplayName).
Local Abbreviation joined := (joined calculateDisplayName).

Lemma foldStateEvent_foreign event self :
  getRoomId event ≠ roomId self →
  foldEvent event self = (Normal tt, self).
Proof.
  intros Hne. unfold foldStateEvent.
  unfold mbind at 1, Js_bind at 1, js_bind at 1, this at 1.
  by rewrite bool_decide_eq_true_2.
Qed.

Lemma foldStateEvent_not_state event self :
  isState event = false → foldEvent event self = (Normal tt, self).
Proof.
  intros Hst. unfold foldStateEvent.
  unfold mbind at 1, Js_bind at 1, js_bind at 1, this at 1.
  rewrite Hst. simpl. by case_bool_decide.
Qed.

Lemma foldStateEvent_member event self :
  accepted (roomId self) event = true →
  getType event = "m.room.member" →
  foldEvent event self =
  match getStateEvents (joined event self) "m.room.power_levels" (Some "")
  with
  | SingleEvent (Some pwrLvlEvent) =>
      updateMember (propKey (getStateKey event))
        (_setPowerLevel pwrLvlEvent) (joined event self)
  | _ => (Normal tt, joined event self)
  end.
Proof.
  intros [Hroom Hst]%andb_prop Hty. apply bool_decide_eq_true in Hroom.
  unfold foldStateEvent.
  unfold mbind, Js_bind, js_bind, this, mutate, mret, Js_ret, js_ret.
  rewrite bool_decide_eq_false_2 by (by intros []).
  rewrite Hst. simpl.
  rewrite bool_decide_eq_true_2 by done.
  change (set_stateEvents (indexEvent event) self) with (indexed event self).
  fold (joined event self).
  by destruct (getStateEvents _ _ _) as [|[|]].
Qed.

Lemma foldStateEvent_power_levels event self :
  accepted (roomId self) event = true →
  getType event = "m.room.power_levels" →
  foldEvent event self =
  utils.forEach (memberRefs (indexed event self))
    (λ member, updateMember member (_setPowerLevel event))
    (indexed event self).
Proof.
  intros [Hroom Hst]%andb_prop Hty. apply bool_decide_eq_true in Hroom.
  unfold foldStateEvent.
  unfold mbind, Js_bind, js_bind, this, mutate, mret, Js_ret, js_ret.
  rewrite bool_decide_eq_false_2 by (by intros []).
  rewrite Hst. simpl.
  rewrite bool_decide_eq_false_2 by (by rewrite Hty).
  by rewrite bool_decide_eq_true_2.
Qed.

Lemma foldStateEvent_other event self :
  accepted (roomId self) event = true →
  getType event ≠ "m.room.member" →
  getType event ≠ "m.room.power_levels" →
  foldEvent event self = (Normal tt, indexed event self).
Proof.
  intros [Hroom Hst]%andb_prop Hty1 Hty2. apply bool_decide_eq_true in Hroom.
  unfold foldStateEvent.
  unfold mbind, Js_bind, js_bind, this, mutate, mret, Js_ret, js_ret.
  rewrite bool_decide_eq_false_2 by (by intros []).
  rewrite Hst. simpl.
  by rewrite !bool_decide_eq_false_2.
Qed.

Lemma not_accepted event self :
  accepted (roomId self) event = false →
  foldEvent event self = (Normal tt, self).
Proof.
  intros [Hroom|Hst]%andb_false_iff.
  - apply foldStateEvent_foreign. by apply bool_decide_eq_false in Hroom.
  - by apply foldStateEvent_not_state.
Qed.

End Fold.

Lemma mutatedInPlace_lookup s s' k :
  mutatedInPlace s s' → is_Some (members s' !! k) ↔ is_Some (members s !! k).
Proof.
  intros (_ & _ & _ & Hm). specialize (Hm k).
  destruct (members s !! k), (members s' !! k); try done.
Qed.

Lemma mutatedInPlace_dom s s' :
  mutatedInPlace s s' → dom (members s') = dom (members s).
Proof.
  intros Hm. apply set_eq. intros k. rewrite !elem_of_dom.
  by apply mutatedInPlace_lookup.
Qed.

Lemma mutatedInPlace_keyed s s' :
  mutatedInPlace s s' → keyedByUserId s → keyedByUserId s'.
Proof.
  intros (_ & _ & _ & Hm) Hk k m' Hm'. specialize (Hm k).
  rewrite Hm' in Hm. destruct (members s !! k) as [m|] eqn:Hs; [|done].
  rewrite Hm. by apply Hk.
Qed.

Section FoldInvariants.

Context (calculateDisplayName : MatrixEvent → RoomState → string).

Local Abbreviation foldEvent := (foldStateEvent calculateDisplayName).
Local Abbreviation foldEvents := (setStateEvents calculateDisplayName).
Local Abbreviation joined := (joined calculateDisplayName).

(** One fold step: the index write and, for a member event, the stored
    record; after that only member objects are mutated. *)
Lemma foldStateEvent_shape event self :
  mutatedInPlace
    (if accepted (roomId self) event
     then if bool_decide (getType event = "m.room.member")
          then joined event self else indexed event self
     else self)
    (foldEvent event self).2.
Proof.
  destruct (accepted (roomId self) event) eqn:Hacc.
  - case_bool_decide as Hmem.
    + rewrite foldStateEvent_member by done.
      destruct (getStateEvents _ _ _) as [|[pl|]];
        try apply mutatedInPlace_refl.
      apply updateMember_mutatedInPlace, _setPowerLevel_userId.
    + destruct (decide (getType event = "m.room.power_levels")) as [Hpl|Hpl].
      * rewrite foldStateEvent_power_levels by done.
        apply forEach_updateMember_mutatedInPlace, _setPowerLevel_userId.
      * rewrite foldStateEvent_other by done. apply mutatedInPlace_refl.
  - rewrite not_accepted by done. apply mutatedInPlace_refl.
Qed.

Lemma foldStateEvent_roomId event self :
  roomId (foldEvent event self).2 = roomId self.
Proof.
  destruct (foldStateEvent_shape event self) as (-> & _).
  destruct (accepted _ _); [|done]. by case_bool_decide.
Qed.

Lemma foldStateEvent_stateEvents event self :
  stateEvents (foldEvent event self).2 =
  if accepted (roomId self) event
  then indexEvent event (stateEvents self) else stateEvents self.
Proof.
  destruct (foldStateEvent_shape event self) as (_ & -> & _).
  destruct (accepted _ _); [|done]. by case_bool_decide.
Qed.

Lemma foldStateEvent_dom event self :
  dom (members (foldEvent event self).2) =
  if accepted (roomId self) event && bool_decide (getType event = "m.room.member")
  then {[propKey (getStateKey event)]} ∪ dom (members self)
  else dom (members self).
Proof.
  rewrite (mutatedInPlace_dom _ _ (foldStateEvent_shape event self)).
  destruct (accepted _ _); [|done]. case_bool_decide; [|done].
  simpl. apply dom_insert_L.
Qed.

Lemma foldStateEvent_keyed event self :
  keyedByUserId self → keyedByUserId (foldEvent event self).2.
Proof.
  intros Hk. apply (mutatedInPlace_keyed _ _ (foldStateEvent_shape event self)).
  destruct (accepted _ _); [|done]. case_bool_decide; [|done].
  intros k m. simpl. rewrite lookup_insert.
  case_decide; [|apply Hk]. by intros [= <-].
Qed.

Lemma setStateEvents_roomId events self :
  roomId (foldEvents events self).2 = roomId self.
Proof.
  apply (forEach_preserves (λ s, roomId s = roomId self)); [|done].
  intros e s <-. apply foldStateEvent_roomId.
Qed.

Lemma setStateEvents_dom events self :
  dom (members self) ⊆ dom (members (foldEvents events self).2).
Proof.
  apply (forEach_preserves (λ s, dom (members self) ⊆ dom (members s)));
    [|done].
  intros e s Hs. rewrite foldStateEvent_dom.
  destruct (_ && _); set_solver.
Qed.

Lemma setStateEvents_keyed events self :
  keyedByUserId self → keyedByUserId (foldEvents events self).2.
Proof.
  apply (forEach_preserves keyedByUserId).
  intros e s. apply foldStateEvent_keyed.
Qed.

(** The state-event index after a batch that returned. *)
Lemma setStateEvents_stateEvents events self self' :
  foldEvents events self = (Normal tt, self') →
  stateEvents self' =
  foldl (λ idx e, if accepted (roomId self) e then indexEvent e idx else idx)
    (stateEvents self) events.
Proof.
  revert self. induction events as [|e events IH]; intros self Hrun.
  - by injection Hrun as <-.
  - simpl in *. unfold setStateEvents in Hrun. simpl in Hrun.
    unfold mbind, Js_bind, js_bind in Hrun.
    pose proof (foldStateEvent_roomId e self) as Hroom.
    pose proof (foldStateEvent_stateEvents e self) as Hidx.
    destruct (foldEvent e self) as [[[]|err] s1]; [|done].
    simpl in *. rewrite <- Hidx, <- Hroom. by apply IH.
Qed.

End FoldInvariants.

(** ** Queries against the index *)

Lemma getStateEvents_index s s' ty key :
  stateEvents s = stateEvents s' →
  getStateEvents s ty key = getStateEvents s' ty key.
Proof. unfold getStateEvents. by intros ->. Qed.

Lemma indexEvent_lookup event idx ty key :
  (indexEvent event idx !! ty) ≫= (.!! key) =
  if decide (getType event = ty ∧ propKey (getStateKey event) = key)
  then Some event else (idx !! ty) ≫= (.!! key).
Proof.
  unfold indexEvent. rewrite lookup_insert.
  case_decide as Hty; simpl.
  - subst ty. rewrite lookup_insert.
    case_decide as Hkey; simpl.
    + by rewrite decide_True.
    + rewrite decide_False by (by intros [_ ?]).
      destruct (idx !! getType event); simpl; [done|apply lookup_empty].
  - by rewrite decide_False by (by intros [? _]).
Qed.

Lemma getStateEvents_single self ty key :
  getStateEvents self ty (Some key) =
  SingleEvent ((stateEvents self !! ty) ≫= (.!! key)).
Proof. unfold getStateEvents. by destruct (stateEvents self !! ty). Qed.

Lemma getStateEvents_indexed event self ty key :
  getStateEvents (indexed event self) ty (Some key) =
  if decide (getType event = ty ∧ propKey (getStateKey event) = key)
  then SingleEvent (Some event) else getStateEvents self ty (Some key).
Proof.
  rewrite !getStateEvents_single. simpl. rewrite indexEvent_lookup.
  by case_decide.
Qed.

Lemma updateMember_ext ref f g self :
  (∀ m, f m = g m) → updateMember ref f self = updateMember ref g self.
Proof.
  intros Hfg. unfold updateMember.
  destruct (members self !! ref); [|done]. by rewrite Hfg.
Qed.

(** Re-applying a power-levels event that carries [users] cannot throw. *)
Lemma updateMember_setPowerLevel event us ref self :
  users (getContent event) = Some us →
  updateMember ref (_setPowerLevel event) self =
  (Normal tt, set_members (alter (projected us (getContent event)) ref) self).
Proof.
  intros Hus. rewrite <- updateMember_pure.
  apply updateMember_ext. intros m. by apply _setPowerLevel_users.
Qed.

Lemma forEach_setPowerLevel event us self :
  users (getContent event) = Some us →
  utils.forEach (memberRefs self)
    (λ member, updateMember member (_setPowerLevel event)) self =
  (Normal tt, set_members (fmap (projected us (getContent event))) self).
Proof.
  intros Hus. rewrite <- forEach_members_pure.
  apply forEach_ext. intros ref s.
  apply updateMember_ext. intros m. by apply _setPowerLevel_users.
Qed.

(** Re-applying a power-levels event without [users] throws at the first
    member object, which it leaves as it was. *)
Lemma forEach_setPowerLevel_throws event self :
  users (getContent event) = None →
  members self ≠ ∅ →
  utils.forEach (memberRefs self)
    (λ member, updateMember member (_setPowerLevel event)) self =
  (Throw TypeError, self).
Proof.
  intros Hus Hne.
  destruct (memberRefs self) as [|ref refs] eqn:Hrefs.
  - exfalso. apply Hne. apply map_to_list_empty_iff.
    unfold memberRefs in Hrefs. by apply fmap_nil_inv in Hrefs.
  - assert (ref ∈ memberRefs self) as Hin by (rewrite Hrefs; left).
    apply elem_of_memberRefs in Hin as [m Hm]. simpl.
    apply js_bind_throw. unfold updateMember. rewrite Hm.
    by rewrite _setPowerLevel_no_users.
Qed.

Section FoldTotal.

Context (calculateDisplayName : MatrixEvent → RoomState → string).

Local Abbreviation foldEvent := (foldStateEvent calculateDisplayName).
Local Abbreviation foldEvents := (setStateEvents calculateDisplayName).
Local Abbreviation joined := (joined calculateDisplayName).

Lemma currentHasUsers_indexed event self :
  hasUsers event → currentHasUsers self →
  currentHasUsers (indexed event self).
Proof.
  intros Hev Hcur pl. rewrite getStateEvents_indexed.
  case_decide as Hslot; [|apply Hcur].
  intros [= <-]. apply Hev. by destruct Hslot.
Qed.

Lemma currentHasUsers_index s s' :
  stateEvents s' = stateEvents s → currentHasUsers s → currentHasUsers s'.
Proof.
  intros Hidx Hcur pl. rewrite (getStateEvents_index s' s) by done. apply Hcur.
Qed.

(** A fold step returns when every power-levels event it may re-apply
    carries a [users] mapping. *)
Lemma foldStateEvent_total event self :
  hasUsers event → currentHasUsers self →
  ∃ self', foldEvent event self = (Normal tt, self') ∧ currentHasUsers self'.
Proof.
  intros Hev Hcur.
  pose proof (currentHasUsers_indexed event self Hev Hcur) as Hidx.
  destruct (accepted (roomId self) event) eqn:Hacc.
  - destruct (decide (getType event = "m.room.member")) as [Hmem|Hmem].
    + rewrite foldStateEvent_member by done.
      assert (currentHasUsers (joined event self)) as Hj.
      { by apply (currentHasUsers_index (indexed event self)). }
      destruct (getStateEvents _ _ _) as [|[pl|]] eqn:Hget; eauto.
      destruct (Hj pl Hget) as [us Hus].
      rewrite (updateMember_setPowerLevel _ us) by done.
      eexists. split; [done|].
      by apply (currentHasUsers_index (indexed event self)).
    + destruct (decide (getType event = "m.room.power_levels")) as [Hpl|Hpl].
      * rewrite foldStateEvent_power_levels by done.
        destruct (Hev Hpl) as [us Hus].
        rewrite (forEach_setPowerLevel _ us) by done.
        eexists. split; [done|].
        by apply (currentHasUsers_index (indexed event self)).
      * rewrite foldStateEvent_other by done. eauto.
  - rewrite not_accepted by done. eauto.
Qed.

Lemma setStateEvents_total events self :
  Forall hasUsers events → currentHasUsers self →
  ∃ self', foldEvents events self = (Normal tt, self') ∧
           currentHasUsers self'.
Proof.
  intros Hevs Hcur. apply forEach_invariant; [|done].
  intros e s He Hs. apply foldStateEvent_total; [|done].
  by eapply Forall_forall in Hevs.
Qed.

End FoldTotal.

(** * The power-level projection: level and normalised level *)

(** The level the projection assigns: the listed level unless it is absent
    or zero, else the default unless it is absent or zero, else 0. *)
Lemma _setPowerLevel_powerLevel event us member :
  users (getContent event) = Some us →
  ∃ member', _setPowerLevel event member = Normal member' ∧
    powerLevel member' =
    match us !! userId member with
    | Some lvl =>
        if lvl =? 0 then js_or (users_default (getContent event)) 0 else lvl
    | None => js_or (users_default (getContent event)) 0
    end.
Proof.
  intros Hus. rewrite (_setPowerLevel_users _ us) by done.
  eexists. split; [done|]. simpl. unfold projectedLevel.
  by destruct (us !! userId member).
Qed.

(** C1 (evaluation at the failing input): with
    [users = {"@a:x": 0}] and [users_default = 50], the member @a:x is
    explicitly listed at level 0, yet [_setPowerLevel] assigns it the
    default 50, both when called directly and through a power-levels fold:
    [users[userId] || users_default || 0] treats a listed 0 as absent. *)
Theorem listed_zero_level_gets_default :
  let event := powerLevelsEvent (Some {["@a:x" := 0]}) (Some 50) in
  (users (getContent event) ≫= (.!! "@a:x")) = Some 0 ∧
  powerLevel <$> (members twoMembers !! "@a:x") = Some 0 ∧
  (∃ member',
     _setPowerLevel event (newRoomMember (memberEvent "@a:x" "join")) =
       Normal member' ∧
     powerLevel member' = 50) ∧
  powerLevel <$>
    (members (setStateEvents nameByUserId [event] twoMembers).2 !! "@a:x") =
  Some 50.
Proof.
  simpl. split; [vm_compute; reflexivity|].
  split; [vm_compute; reflexivity|].
  split; [|vm_compute; reflexivity].
  eexists. split; [vm_compute; reflexivity|reflexivity].
Qed.



(** * The typing projection *)

Lemma newRoomState_keyed room : keyedByUserId (newRoomState room).
Proof. intros k m. simpl. by rewrite lookup_empty. Qed.

Lemma twoMembers_keyed : keyedByUserId twoMembers.
Proof. apply setStateEvents_keyed, newRoomState_keyed. Qed.

Lemma setTypingEvent_keyed event self :
  keyedByUserId self → keyedByUserId (setTypingEvent event self).2.
Proof.
  intros Hk. destruct (decide (getType event = "m.typing")) as [Hty|Hty].
  - rewrite setTypingEvent_typing by done. intros k m'. simpl.
    rewrite typingFold_lookup.
    destruct (members self !! k) as [m|] eqn:Hm; [|done].
    intros [= <-]. simpl. by apply Hk.
  - unfold setTypingEvent. by rewrite bool_decide_eq_true_2.
Qed.

Lemma runCalls_keyed calculateDisplayName calls self :
  keyedByUserId self →
  keyedByUserId (runCalls calculateDisplayName calls self).
Proof.
  revert self. induction calls as [|c calls IH]; intros self Hk; simpl; [done|].
  apply IH. destruct c as [evs|ev].
  - by apply setStateEvents_keyed.
  - by apply setTypingEvent_keyed.
Qed.

(** Every store built from [new RoomState] by calls of its methods keeps
    each member record under its own user identifier. *)
Lemma reachable_keyed calculateDisplayName room calls :
  keyedByUserId (runCalls calculateDisplayName calls (newRoomState room)).
Proof. apply runCalls_keyed, newRoomState_keyed. Qed.

(** C3: a typing event whose [user_ids] is the array [items], applied to a
    store whose member records sit under their own user identifiers,
    returns; it keeps the room, the index and the set of members, changes
    no field of a member but [typing], and leaves [typing] true exactly for
    the members whose [userId] is in [items], whatever it was before. *)
Theorem setTypingEvent_replaces event items self :
  getType event = "m.typing" →
  user_ids (getContent event) = JsArray items →
  keyedByUserId self →
  ∃ self', setTypingEvent event self = (Normal tt, self') ∧
    roomId self' = roomId self ∧
    stateEvents self' = stateEvents self ∧
    dom (members self') = dom (members self) ∧
    ∀ k member', members self' !! k = Some member' →
      (typing member' = true ↔ userId member' ∈ items) ∧
      ∃ member, members self !! k = Some member ∧
                member' = set_typing (typing member') member.
Proof.
  intros Hty Hids Hkeyed. rewrite setTypingEvent_typing by done.
  rewrite Hids. simpl. eexists. split; [done|]. simpl.
  split; [done|]. split; [done|]. split.
  - apply set_eq. intros k. rewrite !elem_of_dom, typingFold_lookup.
    by rewrite fmap_is_Some.
  - intros k member'. rewrite typingFold_lookup.
    destruct (members self !! k) as [member|] eqn:Hm; [|done].
    intros [= <-]. simpl. rewrite (Hkeyed _ _ Hm). split.
    + by rewrite bool_decide_eq_true.
    + eauto.
Qed.

Lemma setTypingEvent_replaces_witness :
  ∃ self',
    setTypingEvent (typingEvent "!room:x" (JsArray ["@a:x"; "@zz:x"]))
      twoMembers = (Normal tt, self') ∧
    roomId self' = roomId twoMembers ∧
    stateEvents self' = stateEvents twoMembers ∧
    dom (members self') = dom (members twoMembers) ∧
    ∀ k member', members self' !! k = Some member' →
      (typing member' = true ↔ userId member' ∈ ["@a:x"; "@zz:x"]) ∧
      ∃ member, members twoMembers !! k = Some member ∧
                member' = set_typing (typing member') member.
Proof.
  apply (setTypingEvent_replaces
           (typingEvent "!room:x" (JsArray ["@a:x"; "@zz:x"]))).
  - reflexivity.
  - reflexivity.
  - apply twoMembers_keyed.
Defined.

(** C4: an event whose type is not [m.typing] makes [setTypingEvent] throw
    an [Error] naming the type, and the store is left exactly as it was. *)
Theorem setTypingEvent_wrong_type event self :
  getType event ≠ "m.typing" →
  setTypingEvent event self =
  (Throw (Error ("Not a typing event -> " +:+ getType event)), self).
Proof.
  intros Hty. unfold setTypingEvent. by rewrite bool_decide_eq_true_2.
Qed.

Lemma setTypingEvent_wrong_type_witness :
  setTypingEvent (topicEvent "!room:x") twoMembers =
  (Throw (Error "Not a typing event -> m.room.topic"), twoMembers).
Proof.
  apply (setTypingEvent_wrong_type (topicEvent "!room:x") twoMembers).
  simpl. discriminate.
Defined.

(** C5: a typing event whose [user_ids] is not an array resets [typing] to
    false on every member record and returns normally; nothing else of the
    store changes. *)
Theorem setTypingEvent_malformed event self :
  getType event = "m.typing" →
  utils.isArray (user_ids (getContent event)) = false →
  setTypingEvent event self =
  (Normal tt, set_members (fmap (set_typing false)) self).
Proof.
  intros Hty Harr. rewrite setTypingEvent_typing by done.
  by destruct (user_ids (getContent event)).
Qed.

Lemma setTypingEvent_malformed_witness :
  setTypingEvent (typingEvent "!room:x" (JsString "not-a-list")) twoMembers =
  (Normal tt, set_members (fmap (set_typing false)) twoMembers).
Proof.
  apply (setTypingEvent_malformed
           (typingEvent "!room:x" (JsString "not-a-list")) twoMembers);
    reflexivity.
Defined.

(** C9: [setTypingEvent] never reads the room identifier of the event: for
    every event of type [m.typing], whatever its room, the call returns
    and every member of this store is left typing exactly when its slot is
    named in [user_ids]; the same event relabelled with any other room
    identifier has the same effect. *)
Theorem setTypingEvent_any_room event self :
  getType event = "m.typing" →
  (∃ self', setTypingEvent event self = (Normal tt, self') ∧
     ∀ k, members self' !! k =
          (λ m, set_typing
                  (bool_decide (k ∈ arrayItems (user_ids (getContent event))))
                  m) <$> members self !! k) ∧
  ∀ room,
    setTypingEvent
      (mkEvent room (getType event) (getStateKey event) (getContent event))
      self =
    setTypingEvent event self.
Proof.
  intros Hty. split.
  - rewrite setTypingEvent_typing by done. eexists. split; [done|].
    intros k. apply typingFold_lookup.
  - intros room. by rewrite !setTypingEvent_typing.
Qed.

Lemma setTypingEvent_any_room_witness :
  getRoomId (typingEvent "!other:y" (JsArray ["@b:x"])) ≠ roomId twoMembers ∧
  ∃ self',
    setTypingEvent (typingEvent "!other:y" (JsArray ["@b:x"])) twoMembers =
      (Normal tt, self') ∧
    ∀ k, members self' !! k =
         (λ m, set_typing (bool_decide (k ∈ ["@b:x"])) m) <$>
           members twoMembers !! k.
Proof.
  split; [discriminate|].
  apply (setTypingEvent_any_room
           (typingEvent "!other:y" (JsArray ["@b:x"])) twoMembers).
  reflexivity.
Defined.

(** * The state fold *)

Lemma forEach_singleton {A} (x : A) fn self :
  utils.forEach [x] fn self = fn x self.
Proof.
  simpl. unfold mbind, Js_bind, js_bind.
  by destruct (fn x self) as [[[]|e] s1].
Qed.

Lemma foldl_snoc_index room events e idx :
  foldl (λ idx e, if accepted room e then indexEvent e idx else idx)
    idx (events ++ [e]) =
  let idx' :=
    foldl (λ idx e, if accepted room e then indexEvent e idx else idx)
      idx events in
  if accepted room e then indexEvent e idx' else idx'.
Proof. by rewrite foldl_app. Qed.

Section Claims.

Context (calculateDisplayName : MatrixEvent → RoomState → string).


(** C2: for a batch of accepted state events that all have type [ty] and
    state key [key], once [setStateEvents] has folded the batch (the call
    returned), [getStateEvents(ty, key)] is the last event of the batch,
    whatever occupied the slot before.  The call does return when every
    power-levels event of the batch, and the one the store holds, carries
    a [users] mapping. *)
Theorem last_write_wins events event self ty key :
  Forall (λ e, accepted (roomId self) e = true ∧
               getType e = ty ∧ getStateKey e = Some key)
    (events ++ [event]) →
  (∀ self', setStateEvents calculateDisplayName (events ++ [event]) self = (Normal tt, self') →
     getStateEvents self' ty (Some key) = SingleEvent (Some event)) ∧
  (Forall hasUsers (events ++ [event]) → currentHasUsers self →
     ∃ self', setStateEvents calculateDisplayName (events ++ [event]) self = (Normal tt, self')).
Proof.
  intros Hall. split.
  - intros self' Hrun.
    apply Forall_app in Hall as [_ Hlast].
    apply Forall_singleton in Hlast as (Hacc & Hty & Hkey).
    rewrite getStateEvents_single.
    rewrite (setStateEvents_stateEvents _ _ _ _ Hrun).
    rewrite foldl_snoc_index. simpl. rewrite Hacc.
    rewrite indexEvent_lookup, decide_True; [done|].
    by rewrite Hkey.
  - intros Hsafe Hcur.
    destruct (setStateEvents_total calculateDisplayName _ _ Hsafe Hcur)
      as (self' & Hrun & _).
    eauto.
Qed.

(** C6: an event of another room folds to nothing, without an error, and
    a batch that contains it has the completion and the store (members
    with all their fields, index, token) of the batch without it. *)
Theorem foreign_event_ignored event self :
  getRoomId event ≠ roomId self →
  setStateEvents calculateDisplayName [event] self = (Normal tt, self) ∧
  ∀ before after,
    setStateEvents calculateDisplayName (before ++ event :: after) self =
    setStateEvents calculateDisplayName (before ++ after) self.
Proof.
  intros Hroom. split.
  - unfold setStateEvents. rewrite forEach_singleton.
    by apply foldStateEvent_foreign.
  - intros before after. unfold setStateEvents.
    rewrite !forEach_app. unfold mbind, Js_bind, js_bind.
    pose proof (setStateEvents_roomId calculateDisplayName before self)
      as Hsame.
    unfold setStateEvents in Hsame.
    destruct (utils.forEach before (foldStateEvent calculateDisplayName) self) as [[[]|e] s1]; [|done].
    simpl in *. unfold mbind, Js_bind, js_bind.
    rewrite foldStateEvent_foreign; [done|]. by rewrite Hsame.
Qed.

Lemma runCalls_dom calls self :
  dom (members self) ⊆ dom (members (runCalls calculateDisplayName calls self)).
Proof.
  revert self. induction calls as [|c calls IH]; intros self; simpl; [done|].
  etrans; [|apply IH]. destruct c as [evs|ev].
  - apply setStateEvents_dom.
  - destruct (decide (getType ev = "m.typing")) as [Hty|Hty].
    + rewrite setTypingEvent_typing by done. simpl.
      intros k. rewrite !elem_of_dom, typingFold_lookup.
      by rewrite fmap_is_Some.
    + unfold setTypingEvent. by rewrite bool_decide_eq_true_2.
Qed.

(** C8: over any sequence of [setStateEvents] and [setTypingEvent] calls
    the set of user identifiers in [members] only grows; and once a call
    folds an accepted [m.room.member] event, whatever its membership
    value and whether or not the call then throws, the event's state key
    is in [members] and stays there over any further calls. *)
Theorem members_never_removed :
  (∀ calls self,
     dom (members self) ⊆
     dom (members (runCalls calculateDisplayName calls self))) ∧
  (∀ event key self calls,
     getRoomId event = roomId self →
     getStateKey event = Some key →
     getType event = "m.room.member" →
     is_Some (members (setStateEvents calculateDisplayName [event] self).2 !! key) ∧
     is_Some
       (members
          (runCalls calculateDisplayName
             (CallSetStateEvents [event] :: calls) self) !! key)).
Proof.
  split; [apply runCalls_dom|].
  intros event key self calls Hroom Hkey Hty.
  assert (key ∈ dom (members (setStateEvents calculateDisplayName [event] self).2)) as Hin.
  { unfold setStateEvents. rewrite forEach_singleton.
    rewrite foldStateEvent_dom. unfold accepted, isState.
    rewrite Hkey, !bool_decide_eq_true_2 by done. simpl. set_solver. }
  split.
  - by apply elem_of_dom.
  - apply elem_of_dom. simpl. by apply runCalls_dom.
Qed.

(** C10: the projection throws exactly when the power-levels content has
    no [users] field.  Without [users] it throws a [TypeError] for every
    member, so folding such an event into a store that has a member
    throws, and so does every later fold of a member event while that
    event is the current power-levels event; with [users] a mapping the
    projection returns for every member, and no fold throws as long as
    every power-levels event in play has [users]. *)
Theorem projection_needs_users :
  (∀ event member,
     users (getContent event) = None →
     _setPowerLevel event member = Throw TypeError) ∧
  (∀ event member,
     is_Some (users (getContent event)) →
     ∃ member', _setPowerLevel event member = Normal member') ∧
  (∀ event self,
     accepted (roomId self) event = true →
     getType event = "m.room.power_levels" →
     users (getContent event) = None →
     members self ≠ ∅ →
     (setStateEvents calculateDisplayName [event] self).1 = Throw TypeError) ∧
  (∀ pwrLvlEvent event self,
     getStateEvents self "m.room.power_levels" (Some "") =
       SingleEvent (Some pwrLvlEvent) →
     users (getContent pwrLvlEvent) = None →
     accepted (roomId self) event = true →
     getType event = "m.room.member" →
     (setStateEvents calculateDisplayName [event] self).1 = Throw TypeError) ∧
  (∀ events self,
     Forall hasUsers events → currentHasUsers self →
     (setStateEvents calculateDisplayName events self).1 = Normal tt).
Proof.
  split; [apply _setPowerLevel_no_users|].
  split; [|split; [|split]].
  - intros event member [us Hus]. rewrite (_setPowerLevel_users _ us); eauto.
  - intros event self Hacc Hty Hus Hne.
    unfold setStateEvents. rewrite forEach_singleton.
    rewrite foldStateEvent_power_levels by done.
    by rewrite forEach_setPowerLevel_throws.
  - intros pl event self Hget Hus Hacc Hty.
    unfold setStateEvents. rewrite forEach_singleton.
    rewrite foldStateEvent_member by done.
    rewrite (getStateEvents_index _ (indexed event self)) by done.
    rewrite getStateEvents_indexed, decide_False, Hget.
    2:{ intros [Hpl _]. by rewrite Hty in Hpl. }
    unfold updateMember. simpl. rewrite lookup_insert_eq.
    by rewrite _setPowerLevel_no_users.
  - intros events self Hsafe Hcur.
    destruct (setStateEvents_total calculateDisplayName _ _ Hsafe Hcur)
      as (self' & -> & _).
    done.
Qed.

End Claims.

(** A batch that throws stops at the throwing event: the events after it
    are not folded, and the slot holds the event that threw. *)
Example setStateEvents_stops_at_throw :
  let batch := [powerLevelsEvent None None; powerLevelsEvent (Some ∅) None] in
  let result := setStateEvents nameByUserId batch twoMembers in
  result.1 = Throw TypeError ∧
  getStateEvents result.2 "m.room.power_levels" (Some "") =
  SingleEvent (Some (powerLevelsEvent None None)).
Proof. split; vm_compute; reflexivity. Qed.

Lemma last_write_wins_witness :
  getStateEvents
    (setStateEvents nameByUserId
       [memberEvent "@a:x" "join"; memberEvent "@a:x" "leave"]
       (newRoomState "!room:x")).2
    "m.room.member" (Some "@a:x") =
  SingleEvent (Some (memberEvent "@a:x" "leave")).
Proof.
  apply (proj1 (last_write_wins nameByUserId
                  [memberEvent "@a:x" "join"] (memberEvent "@a:x" "leave")
                  (newRoomState "!room:x") "m.room.member" "@a:x"
                  ltac:(repeat constructor))).
  vm_compute. reflexivity.
Defined.

Lemma foreign_event_ignored_witness :
  setStateEvents nameByUserId
    [memberEventIn "!other:y" "@c:y" "join"] twoMembers =
    (Normal tt, twoMembers) ∧
  setStateEvents nameByUserId
    [topicEvent "!room:x"; memberEventIn "!other:y" "@c:y" "join";
     memberEvent "@a:x" "leave"]
    twoMembers =
  setStateEvents nameByUserId
    [topicEvent "!room:x"; memberEvent "@a:x" "leave"] twoMembers.
Proof.
  destruct (foreign_event_ignored nameByUserId
              (memberEventIn "!other:y" "@c:y" "join") twoMembers)
    as [Hone Hbatch]; [discriminate|].
  split; [exact Hone|].
  exact (Hbatch [topicEvent "!room:x"] [memberEvent "@a:x" "leave"]).
Defined.

Lemma members_never_removed_witness :
  is_Some
    (members
       (setStateEvents nameByUserId [memberEvent "@a:x" "leave"] twoMembers).2
     !! "@a:x") ∧
  is_Some
    (members
       (runCalls nameByUserId
          [CallSetStateEvents [memberEvent "@a:x" "leave"];
           CallSetTypingEvent (typingEvent "!room:x" JsNull);
           CallSetStateEvents [powerLevelsEvent None None]]
          twoMembers)
     !! "@a:x").
Proof.
  apply (proj2 (members_never_removed nameByUserId)
           (memberEvent "@a:x" "leave") "@a:x" twoMembers
           [CallSetTypingEvent (typingEvent "!room:x" JsNull);
            CallSetStateEvents [powerLevelsEvent None None]]);
    reflexivity.
Defined.

Lemma projection_needs_users_witness :
  (setStateEvents nameByUserId [powerLevelsEvent None (Some 50)] twoMembers).1 =
    Throw TypeError ∧
  (setStateEvents nameByUserId [memberEvent "@c:x" "join"]
     (setStateEvents nameByUserId [powerLevelsEvent None (Some 50)]
        (newRoomState "!room:x")).2).1 =
    Throw TypeError ∧
  (setStateEvents nameByUserId
     [powerLevelsEvent (Some ∅) (Some 50); memberEvent "@c:x" "join"]
     twoMembers).1 = Normal tt.
Proof.
  destruct (projection_needs_users nameByUserId)
    as (_ & _ & Hfold & Hmember & Hsafe).
  split; [|split].
  - apply Hfold; [reflexivity|reflexivity|reflexivity|].
    intros Hempty. apply (f_equal (λ ms, ms !! "@a:x")) in Hempty.
    vm_compute in Hempty. discriminate.
  - apply (Hmember (powerLevelsEvent None (Some 50))); reflexivity.
  - apply Hsafe.
    + apply Forall_cons. split; [intros _; simpl; eauto|].
      apply Forall_cons. split; [intros Hty; discriminate Hty|].
      by apply Forall_nil.
    + intros pl Hpl. vm_compute in Hpl. discriminate.
Defined.

(** * Further properties of the store *)

(** ** Queries *)

Lemma elem_of_values_inv {V} (obj : gmap string V) v :
  v ∈ utils.values obj ↔ ∃ k, obj !! k = Some v.
Proof.
  unfold utils.values. rewrite list_elem_of_fmap. split.
  - intros ([k v'] & -> & Hin). apply elem_of_map_to_list in Hin. eauto.
  - intros [k Hk]. exists (k, v). split; [done|].
    by apply elem_of_map_to_list.
Qed.






(** ** Batches *)

Lemma filter_singleton {A} (P : A → Prop) `{∀ x, Decision (P x)} (x : A) :
  filter P [x] = if decide (P x) then [x] else [].
Proof. rewrite filter_cons, filter_nil. by destruct (decide (P x)). Qed.

Lemma foldl_index_lookup room events idx ty key :
  (foldl (λ idx e, if accepted room e then indexEvent e idx else idx)
     idx events !! ty) ≫= (.!! key) =
  match last (filter (λ e, writesSlot room ty key e = true) events) with
  | Some e => Some e
  | None => (idx !! ty) ≫= (.!! key)
  end.
Proof.
  induction events as [|e events IH] using rev_ind; [done|].
  rewrite foldl_snoc_index, filter_app, filter_singleton. simpl.
  destruct (writesSlot room ty key e) eqn:Hw.
  - rewrite decide_True by done. rewrite last_snoc.
    apply andb_prop in Hw as [[Hacc Hty]%andb_prop Hkey].
    apply bool_decide_eq_true in Hty, Hkey.
    rewrite Hacc, indexEvent_lookup. by rewrite decide_True.
  - rewrite decide_False by done. rewrite app_nil_r.
    destruct (accepted room e) eqn:Hacc; [|done].
    rewrite indexEvent_lookup, decide_False; [done|].
    intros [Hty Hkey]. unfold writesSlot in Hw.
    by rewrite Hacc, !bool_decide_eq_true_2 in Hw.
Qed.

Section Batches.

Context (calculateDisplayName : MatrixEvent → RoomState → string).

(** X3: an event without a state key folds to nothing, without an error,
    and a batch that contains it has the completion and the store of the
    batch without it. *)
Theorem non_state_event_ignored event self :
  getStateKey event = None →
  setStateEvents calculateDisplayName [event] self = (Normal tt, self) ∧
  ∀ before after,
    setStateEvents calculateDisplayName (before ++ event :: after) self =
    setStateEvents calculateDisplayName (before ++ after) self.
Proof.
  intros Hkey.
  assert (∀ s, foldStateEvent calculateDisplayName event s = (Normal tt, s))
    as Hskip.
  { intros s. apply foldStateEvent_not_state. unfold isState. by rewrite Hkey. }
  split.
  - unfold setStateEvents. by rewrite forEach_singleton.
  - intros before after. unfold setStateEvents.
    rewrite !forEach_app. unfold mbind, Js_bind, js_bind.
    destruct (utils.forEach before _ self) as [[[]|e] s1]; [|done].
    simpl. unfold mbind, Js_bind, js_bind. by rewrite Hskip.
Qed.


(** X5: after a batch that returned, a slot [(ty, key)] of the index holds
    the last event of the batch that passed both guards and has that type
    and state key; when the batch has no such event, the slot is as it was
    before the call. *)
Theorem setStateEvents_slot events self self' ty key :
  setStateEvents calculateDisplayName events self = (Normal tt, self') →
  getStateEvents self' ty (Some key) =
  match last (filter (λ e, writesSlot (roomId self) ty key e = true) events)
  with
  | Some e => SingleEvent (Some e)
  | None => getStateEvents self ty (Some key)
  end.
Proof.
  intros Hrun. rewrite !getStateEvents_single.
  rewrite (setStateEvents_stateEvents _ _ _ _ Hrun), foldl_index_lookup.
  by destruct (last _).
Qed.


(** X7: a batch without member and power-levels events always returns; it
    leaves [members], with every field of every record, the room
    identifier and the pagination token as they were. *)
Theorem index_only_batch events self :
  Forall indexOnly events →
  ∃ self',
    setStateEvents calculateDisplayName events self = (Normal tt, self') ∧
    members self' = members self ∧ roomId self' = roomId self ∧
    paginationToken self' = paginationToken self.
Proof.
  intros Hall.
  apply (forEach_invariant
           (λ s, members s = members self ∧ roomId s = roomId self ∧
                 paginationToken s = paginationToken self)); [|done].
  intros e s He (Hm & Hr & Hp).
  eapply Forall_forall in Hall as [Hmem Hpl]; [|exact He].
  destruct (accepted (roomId s) e) eqn:Hacc.
  - rewrite foldStateEvent_other by done. eauto.
  - rewrite not_accepted by done. eauto.
Qed.

End Batches.

(** ** The projection, without assumptions on the levels *)

Lemma fold_left_max_attained l a :
  fold_left Z.max l a = a ∨ fold_left Z.max l a ∈ l.
Proof.
  revert a. induction l as [|x l IH]; intros a; simpl; [by left|].
  destruct (IH (Z.max a x)) as [Heq|Hin].
  - rewrite Heq. destruct (Z.max_spec a x) as [[_ ->]|[_ ->]].
    + right. left.
    + by left.
  - right. by right.
Qed.





(** X8: [maxLevel] is a maximum: it is at least [users_default || 0] and
    every listed level, and it is one of them.  With [users_default]
    absent it is never negative, whatever the listed levels. *)
Theorem maxLevelOf_is_max content us :
  users content = Some us →
  js_or (users_default content) 0 ≤ maxLevelOf content ∧
  (∀ user lvl, us !! user = Some lvl → lvl ≤ maxLevelOf content) ∧
  (maxLevelOf content = js_or (users_default content) 0 ∨
   ∃ user, us !! user = Some (maxLevelOf content)) ∧
  (users_default content = None → 0 ≤ maxLevelOf content).
Proof.
  intros Hus. split; [apply maxLevelOf_default|].
  split; [intros user lvl; by apply maxLevelOf_listed|]. split.
  - unfold maxLevelOf. rewrite Hus.
    destruct (fold_left_max_attained (utils.values us)
                (js_or (users_default content) 0)) as [Heq|Hin]; [by left|].
    right. by apply elem_of_values_inv.
  - intros Hd. pose proof (maxLevelOf_default content) as Hmax.
    by rewrite Hd in Hmax.
Qed.


Lemma projected_idemp us content member :
  projected us content (projected us content member) =
  projected us content member.
Proof. done. Qed.

(** X10: the projection only writes [powerLevel] and [powerLevelNorm], and
    applying the same power-levels event to its own result changes
    nothing. *)
Theorem _setPowerLevel_idempotent event member member' :
  _setPowerLevel event member = Normal member' →
  _setPowerLevel event member' = Normal member' ∧
  userId member' = userId member ∧
  displayName member' = displayName member ∧
  typing member' = typing member.
Proof.
  destruct (users (getContent event)) as [us|] eqn:Hus.
  - rewrite !(_setPowerLevel_users _ us) by done. by intros [= <-].
  - by rewrite _setPowerLevel_no_users.
Qed.

(** ** Power levels in the store *)

Lemma indexEvent_idemp event idx :
  indexEvent event (indexEvent event idx) = indexEvent event idx.
Proof.
  unfold indexEvent. rewrite lookup_insert_eq. simpl.
  by rewrite !insert_insert_eq.
Qed.

Lemma indexed_idemp event self :
  indexed event (indexed event self) = indexed event self.
Proof.
  unfold indexed, set_stateEvents. simpl. by rewrite indexEvent_idemp.
Qed.

Lemma fmap_projected_idemp us content (ms : gmap string RoomMember) :
  projected us content <$> (projected us content <$> ms) =
  projected us content <$> ms.
Proof.
  apply map_eq. intros k. rewrite !lookup_fmap. by destruct (ms !! k).
Qed.

Lemma memberRefs_empty self : members self = ∅ → memberRefs self = [].
Proof. unfold memberRefs. intros ->. by rewrite map_to_list_empty. Qed.

Section PowerLevels.

Context (calculateDisplayName : MatrixEvent → RoomState → string).

Lemma power_levels_step event self :
  accepted (roomId self) event = true →
  getType event = "m.room.power_levels" →
  foldStateEvent calculateDisplayName event self =
  match users (getContent event) with
  | Some us =>
      (Normal tt,
       set_members (fmap (projected us (getContent event)))
         (indexed event self))
  | None =>
      if decide (members self = ∅)
      then (Normal tt, indexed event self)
      else (Throw TypeError, indexed event self)
  end.
Proof.
  intros Hacc Hty. rewrite foldStateEvent_power_levels by done.
  destruct (users (getContent event)) as [us|] eqn:Hus.
  - by apply forEach_setPowerLevel.
  - case_decide as Hempty.
    + by rewrite memberRefs_empty.
    + by apply forEach_setPowerLevel_throws.
Qed.

(** X11: folding an accepted power-levels event that carries [users]
    returns, writes the event into its slot, and re-projects every member
    with this event, whatever the event's state key; no member is added
    or removed. *)
Theorem power_levels_fold event us self :
  accepted (roomId self) event = true →
  getType event = "m.room.power_levels" →
  users (getContent event) = Some us →
  ∃ self',
    setStateEvents calculateDisplayName [event] self = (Normal tt, self') ∧
    stateEvents self' = indexEvent event (stateEvents self) ∧
    ∀ k, members self' !! k =
         projected us (getContent event) <$> members self !! k.
Proof.
  intros Hacc Hty Hus. unfold setStateEvents.
  rewrite forEach_singleton, power_levels_step, Hus by done.
  eexists. split; [done|]. split; [done|].
  intros k. simpl. apply lookup_fmap.
Qed.

(** X12: folding the same accepted power-levels event twice in a row has
    the completion and the store of folding it once. *)
Theorem power_levels_fold_twice event self :
  accepted (roomId self) event = true →
  getType event = "m.room.power_levels" →
  setStateEvents calculateDisplayName [event; event] self =
  setStateEvents calculateDisplayName [event] self.
Proof.
  intros Hacc Hty.
  change [event; event] with ([event] ++ [event]).
  unfold setStateEvents. rewrite forEach_app.
  unfold mbind, Js_bind, js_bind. rewrite !forEach_singleton.
  rewrite (power_levels_step event self) by done.
  destruct (users (getContent event)) as [us|] eqn:Hus.
  - rewrite forEach_singleton, power_levels_step, Hus by done. f_equal.
    unfold set_members. simpl.
    by rewrite indexEvent_idemp, fmap_projected_idemp.
  - case_decide as Hempty; [|done].
    rewrite forEach_singleton, power_levels_step, Hus by done.
    rewrite decide_True by done. by rewrite indexed_idemp.
Qed.

(** X13: folding an accepted power-levels event without [users] into a
    store that has a member throws after the index write: the event
    occupies its slot, no member record is touched, and the events after it
    in the batch are not folded. *)
Theorem power_levels_fold_throws event rest self :
  accepted (roomId self) event = true →
  getType event = "m.room.power_levels" →
  users (getContent event) = None →
  members self ≠ ∅ →
  setStateEvents calculateDisplayName (event :: rest) self =
  (Throw TypeError, set_stateEvents (indexEvent event) self).
Proof.
  intros Hacc Hty Hus Hne. unfold setStateEvents. simpl.
  apply js_bind_throw. rewrite power_levels_step, Hus by done.
  by rewrite decide_False.
Qed.

(** X14: folding an accepted member event while the current power-levels
    event, if any, carries [users] returns; the record stored under the
    state key already has the levels of the current power-levels event,
    and every other member record is untouched. *)
Theorem member_fold event key self :
  accepted (roomId self) event = true →
  getType event = "m.room.member" →
  getStateKey event = Some key →
  currentHasUsers self →
  ∃ self' member',
    setStateEvents calculateDisplayName [event] self = (Normal tt, self') ∧
    stateEvents self' = indexEvent event (stateEvents self) ∧
    members self' !! key = Some member' ∧
    (∀ pl, getStateEvents self' "m.room.power_levels" (Some "") =
             SingleEvent (Some pl) →
           _setPowerLevel pl member' = Normal member') ∧
    ∀ k, k ≠ key → members self' !! k = members self !! k.
Proof.
  intros Hacc Hty Hkey Hcur. unfold setStateEvents.
  rewrite forEach_singleton, foldStateEvent_member by done.
  assert (∀ s, stateEvents s = stateEvents (indexed event self) →
               getStateEvents s "m.room.power_levels" (Some "") =
               getStateEvents self "m.room.power_levels" (Some "")) as Hsame.
  { intros s Hs. rewrite (getStateEvents_index s (indexed event self)) by done.
    rewrite getStateEvents_indexed, decide_False; [done|].
    intros [Hpl _]. by rewrite Hty in Hpl. }
  rewrite Hsame by done. unfold joined. rewrite Hkey. simpl.
  destruct (getStateEvents self "m.room.power_levels" (Some ""))
    as [|[pl|]] eqn:Hget.
  - eexists _, _. split; [done|]. split; [done|]. simpl.
    split; [apply lookup_insert_eq|]. split.
    + intros pl. by rewrite Hsame.
    + intros k Hk. by rewrite lookup_insert_ne.
  - destruct (Hcur pl Hget) as [us Hus].
    rewrite (updateMember_setPowerLevel _ us) by done.
    eexists _, _. split; [done|]. split; [done|]. simpl.
    split; [by rewrite lookup_alter, decide_True, lookup_insert_eq|]. split.
    + intros pl'. rewrite Hsame by done. intros [= <-].
      by rewrite (_setPowerLevel_users _ us).
    + intros k Hk. rewrite lookup_alter, decide_False by done.
      by rewrite lookup_insert_ne.
  - eexists _, _. split; [done|]. split; [done|]. simpl.
    split; [apply lookup_insert_eq|]. split.
    + intros pl. by rewrite Hsame.
    + intros k Hk. by rewrite lookup_insert_ne.
Qed.

End PowerLevels.

(** ** Typing signals, one after another *)

Lemma setTypingEvent_not_typing event self :
  getType event ≠ "m.typing" → (setTypingEvent event self).2 = self.
Proof. intros Hty. unfold setTypingEvent. by rewrite bool_decide_eq_true_2. Qed.

Lemma typingFold_typingFold items1 items2 ms :
  typingFold items2 (typingFold items1 ms) = typingFold items2 ms.
Proof.
  apply map_eq. intros k. rewrite !typingFold_lookup.
  by destruct (ms !! k).
Qed.

(** X15: a typing signal overrides whatever [setTypingEvent] call came
    before it: applied after any other call, it has the completion and the
    store it has when applied alone. *)
Theorem setTypingEvent_overrides first second self :
  getType second = "m.typing" →
  setTypingEvent second (setTypingEvent first self).2 =
  setTypingEvent second self.
Proof.
  intros Hty. destruct (decide (getType first = "m.typing")) as [Hfst|Hfst].
  - rewrite (setTypingEvent_typing first) by done. simpl.
    rewrite !setTypingEvent_typing by done. f_equal.
    unfold set_members. simpl. by rewrite typingFold_typingFold.
  - by rewrite setTypingEvent_not_typing.
Qed.

(** X16: whatever the event and whether or not the call throws,
    [setTypingEvent] keeps the room identifier, the state-event index and
    the pagination token, adds and removes no member, and changes no field
    of a member record but [typing]. *)
Theorem setTypingEvent_frame event self :
  roomId (setTypingEvent event self).2 = roomId self ∧
  stateEvents (setTypingEvent event self).2 = stateEvents self ∧
  paginationToken (setTypingEvent event self).2 = paginationToken self ∧
  ∀ k, match members self !! k, members (setTypingEvent event self).2 !! k with
       | Some m, Some m' => m' = set_typing (typing m') m
       | None, None => True
       | _, _ => False
       end.
Proof.
  destruct (decide (getType event = "m.typing")) as [Hty|Hty].
  - rewrite setTypingEvent_typing by done. simpl.
    repeat (split; [done|]). intros k. rewrite typingFold_lookup.
    by destruct (members self !! k).
  - rewrite setTypingEvent_not_typing by done.
    repeat (split; [done|]). intros k.
    by destruct (members self !! k) as [[]|].
Qed.

(** ** Invariants over sequences of calls *)

Lemma mutatedInPlace_membersIndexed s s' :
  mutatedInPlace s s' → membersIndexed s → membersIndexed s'.
Proof.
  intros Hm Hidx k. rewrite (mutatedInPlace_lookup _ _ _ Hm).
  destruct Hm as (_ & Hev & _).
  rewrite (getStateEvents_index s' s) by done. apply Hidx.
Qed.

Lemma setTypingEvent_mutatedInPlace event self :
  mutatedInPlace self (setTypingEvent event self).2.
Proof.
  destruct (decide (getType event = "m.typing")) as [Hty|Hty].
  - rewrite setTypingEvent_typing by done. repeat (split; [done|]).
    intros k. simpl. rewrite typingFold_lookup.
    by destruct (members self !! k).
  - rewrite setTypingEvent_not_typing by done. apply mutatedInPlace_refl.
Qed.


Section Invariants.

Context (calculateDisplayName : MatrixEvent → RoomState → string).

Lemma foldStateEvent_token event self :
  paginationToken (foldStateEvent calculateDisplayName event self).2 =
  paginationToken self.
Proof.
  destruct (foldStateEvent_shape calculateDisplayName event self)
    as (_ & _ & -> & _).
  destruct (accepted _ _); [|done]. by case_bool_decide.
Qed.

(** X17: no call changes the room identifier or the pagination token of
    the store, whether it returns or throws. *)
Theorem identity_fixed calls self :
  roomId (runCalls calculateDisplayName calls self) = roomId self ∧
  paginationToken (runCalls calculateDisplayName calls self) =
  paginationToken self.
Proof.
  revert self. induction calls as [|c calls IH]; intros self; simpl; [done|].
  destruct (IH (match c with
                | CallSetStateEvents evs =>
                    (setStateEvents calculateDisplayName evs self).2
                | CallSetTypingEvent ev => (setTypingEvent ev self).2
                end)) as [-> ->].
  destruct c as [evs|ev].
  - split.
    + apply setStateEvents_roomId.
    + apply (forEach_preserves
               (λ s, paginationToken s = paginationToken self)); [|done].
      intros e s <-. apply foldStateEvent_token.
  - by destruct (setTypingEvent_mutatedInPlace ev self) as (-> & _ & -> & _).
Qed.

Lemma foldStateEvent_slot_kept event self ty key :
  is_Some ((stateEvents self !! ty) ≫= (.!! key)) →
  is_Some
    ((stateEvents (foldStateEvent calculateDisplayName event self).2 !! ty)
       ≫= (.!! key)).
Proof.
  intros Hslot. rewrite foldStateEvent_stateEvents.
  destruct (accepted _ _); [|done].
  rewrite indexEvent_lookup. by case_decide.
Qed.

(** X18: the state-event index never loses a slot: once
    [getStateEvents(type, key)] returns an event, it returns an event
    after any further calls. *)
Theorem slot_never_emptied calls self ty key :
  (∃ e, getStateEvents self ty (Some key) = SingleEvent (Some e)) →
  ∃ e, getStateEvents (runCalls calculateDisplayName calls self) ty (Some key)
       = SingleEvent (Some e).
Proof.
  assert (∀ s, (∃ e, getStateEvents s ty (Some key) = SingleEvent (Some e)) ↔
               is_Some ((stateEvents s !! ty) ≫= (.!! key))) as Hiff.
  { intros s. rewrite getStateEvents_single. split.
    - intros [e [= ->]]. eauto.
    - intros [e ->]. eauto. }
  rewrite !Hiff. clear Hiff.
  revert self. induction calls as [|c calls IH]; intros self Hslot; simpl;
    [done|].
  apply IH. destruct c as [evs|ev].
  - apply (forEach_preserves
             (λ s, is_Some ((stateEvents s !! ty) ≫= (.!! key)))); [|done].
    intros e s. apply foldStateEvent_slot_kept.
  - by destruct (setTypingEvent_mutatedInPlace ev self) as (_ & -> & _).
Qed.

Lemma foldStateEvent_membersIndexed event self :
  membersIndexed self →
  membersIndexed (foldStateEvent calculateDisplayName event self).2.
Proof.
  intros Hidx.
  apply (mutatedInPlace_membersIndexed _ _
           (foldStateEvent_shape calculateDisplayName event self)).
  destruct (accepted (roomId self) event); [|done].
  case_bool_decide as Hty.
  - intros k.
    rewrite (getStateEvents_index _ (indexed event self)) by done.
    rewrite getStateEvents_indexed. simpl. rewrite lookup_insert.
    destruct (decide (propKey (getStateKey event) = k)) as [Hk|Hk].
    + rewrite decide_True by done. split; eauto.
    + rewrite decide_False by (by intros [_ ?]). apply Hidx.
  - intros k. rewrite getStateEvents_indexed.
    rewrite decide_False by (by intros [? _]). apply Hidx.
Qed.

Lemma runCalls_membersIndexed calls self :
  membersIndexed self →
  membersIndexed (runCalls calculateDisplayName calls self).
Proof.
  revert self. induction calls as [|c calls IH]; intros self Hidx; simpl;
    [done|].
  apply IH. destruct c as [evs|ev].
  - apply (forEach_preserves membersIndexed); [|done].
    intros e s. apply foldStateEvent_membersIndexed.
  - apply (mutatedInPlace_membersIndexed self); [|done].
    apply setTypingEvent_mutatedInPlace.
Qed.

(** X19: in a store built from [new RoomState] by any calls, returned or
    thrown, [members] has a user identifier exactly when the index holds a
    member event under that state key. *)
Theorem members_match_index room calls k :
  is_Some
    (members (runCalls calculateDisplayName calls (newRoomState room)) !! k) ↔
  ∃ e,
    getStateEvents (runCalls calculateDisplayName calls (newRoomState room))
      "m.room.member" (Some k) = SingleEvent (Some e).
Proof.
  apply runCalls_membersIndexed. intros k'. simpl. rewrite lookup_empty.
  split; [by intros [? ?]|]. by intros [e ?].
Qed.

End Invariants.

Section Levels.

Context (calculateDisplayName : MatrixEvent → RoomState → string).





End Levels.

(** ** Instances *)

Lemma twoMembers_not_empty : members twoMembers ≠ ∅.
Proof.
  intros Hempty. apply (f_equal (λ ms, ms !! "@a:x")) in Hempty.
  vm_compute in Hempty. discriminate.
Qed.

Lemma twoMembers_currentHasUsers : currentHasUsers twoMembers.
Proof. intros pl Hpl. vm_compute in Hpl. discriminate. Qed.

Lemma non_state_event_ignored_witness :
  setStateEvents nameByUserId [typingEvent "!room:x" JsNull] twoMembers =
    (Normal tt, twoMembers) ∧
  setStateEvents nameByUserId
    [topicEvent "!room:x"; typingEvent "!room:x" JsNull;
     memberEvent "@a:x" "leave"] twoMembers =
  setStateEvents nameByUserId
    [topicEvent "!room:x"; memberEvent "@a:x" "leave"] twoMembers.
Proof.
  destruct (non_state_event_ignored nameByUserId
              (typingEvent "!room:x" JsNull) twoMembers eq_refl)
    as [Hone Hbatch].
  split; [exact Hone|].
  exact (Hbatch [topicEvent "!room:x"] [memberEvent "@a:x" "leave"]).
Defined.

Lemma setStateEvents_slot_witness :
  getStateEvents
    (setStateEvents nameByUserId
       [memberEvent "@a:x" "join"; topicEvent "!room:x";
        memberEvent "@a:x" "leave"; memberEventIn "!other:y" "@a:x" "ban"]
       (newRoomState "!room:x")).2
    "m.room.member" (Some "@a:x") =
  SingleEvent (Some (memberEvent "@a:x" "leave")).
Proof.
  etrans.
  - apply (setStateEvents_slot nameByUserId
             [memberEvent "@a:x" "join"; topicEvent "!room:x";
              memberEvent "@a:x" "leave"; memberEventIn "!other:y" "@a:x" "ban"]
             (newRoomState "!room:x")).
    vm_compute. reflexivity.
  - vm_compute. reflexivity.
Defined.


Lemma index_only_batch_witness :
  ∃ self',
    setStateEvents nameByUserId
      [topicEvent "!room:x"; typingEvent "!room:x" JsNull] twoMembers =
      (Normal tt, self') ∧
    members self' = members twoMembers ∧ roomId self' = roomId twoMembers ∧
    paginationToken self' = paginationToken twoMembers.
Proof.
  apply (index_only_batch nameByUserId
           [topicEvent "!room:x"; typingEvent "!room:x" JsNull] twoMembers).
  apply Forall_cons. split; [split; discriminate|].
  apply Forall_cons. split; [split; discriminate|].
  by apply Forall_nil.
Defined.

Lemma maxLevelOf_is_max_witness :
  let content :=
    getContent
      (powerLevelsEvent (Some {["@a:x" := 50; "@b:x" := 100]}) (Some 10)) in
  js_or (users_default content) 0 ≤ maxLevelOf content ∧
  (∀ user lvl,
     ({["@a:x" := 50; "@b:x" := 100]} : gmap string Z) !! user = Some lvl →
     lvl ≤ maxLevelOf content) ∧
  (maxLevelOf content = js_or (users_default content) 0 ∨
   ∃ user,
     ({["@a:x" := 50; "@b:x" := 100]} : gmap string Z) !! user =
     Some (maxLevelOf content)) ∧
  (users_default content = None → 0 ≤ maxLevelOf content).
Proof.
  exact (maxLevelOf_is_max
           (getContent
              (powerLevelsEvent (Some {["@a:x" := 50; "@b:x" := 100]})
                 (Some 10)))
           {["@a:x" := 50; "@b:x" := 100]} eq_refl).
Defined.


Lemma _setPowerLevel_idempotent_witness :
  let event := powerLevelsEvent (Some {["@a:x" := 50; "@b:x" := 100]}) None in
  let member := newRoomMember (memberEvent "@a:x" "join") in
  ∃ member',
    _setPowerLevel event member = Normal member' ∧
    _setPowerLevel event member' = Normal member' ∧
    userId member' = userId member ∧
    displayName member' = displayName member ∧
    typing member' = typing member.
Proof.
  pose proof (_setPowerLevel_users
                (powerLevelsEvent (Some {["@a:x" := 50; "@b:x" := 100]}) None)
                {["@a:x" := 50; "@b:x" := 100]}
                (newRoomMember (memberEvent "@a:x" "join")) eq_refl) as Hrun.
  eexists. split; [exact Hrun|].
  exact (_setPowerLevel_idempotent _ _ _ Hrun).
Defined.

Lemma power_levels_fold_witness :
  let event :=
    mkEvent "!room:x" "m.room.power_levels" (Some "elsewhere")
      (mkContent (Some {["@a:x" := 50]}) (Some 10) JsUndefined None) in
  ∃ self',
    setStateEvents nameByUserId [event] twoMembers = (Normal tt, self') ∧
    stateEvents self' = indexEvent event (stateEvents twoMembers) ∧
    ∀ k, members self' !! k =
         projected {["@a:x" := 50]} (getContent event) <$>
           members twoMembers !! k.
Proof.
  simpl. apply (power_levels_fold nameByUserId); reflexivity.
Defined.

Lemma power_levels_fold_twice_witness :
  setStateEvents nameByUserId
    [powerLevelsEvent (Some {["@a:x" := 50]}) None;
     powerLevelsEvent (Some {["@a:x" := 50]}) None] twoMembers =
  setStateEvents nameByUserId
    [powerLevelsEvent (Some {["@a:x" := 50]}) None] twoMembers.
Proof. apply (power_levels_fold_twice nameByUserId); reflexivity. Defined.

Lemma power_levels_fold_throws_witness :
  setStateEvents nameByUserId
    [powerLevelsEvent None (Some 50); memberEvent "@c:x" "join"] twoMembers =
  (Throw TypeError,
   set_stateEvents (indexEvent (powerLevelsEvent None (Some 50))) twoMembers).
Proof.
  apply (power_levels_fold_throws nameByUserId); try reflexivity.
  apply twoMembers_not_empty.
Defined.

Lemma member_fold_witness :
  ∃ self' member',
    setStateEvents nameByUserId [memberEvent "@c:x" "join"] twoMembers =
      (Normal tt, self') ∧
    stateEvents self' =
      indexEvent (memberEvent "@c:x" "join") (stateEvents twoMembers) ∧
    members self' !! "@c:x" = Some member' ∧
    (∀ pl, getStateEvents self' "m.room.power_levels" (Some "") =
             SingleEvent (Some pl) →
           _setPowerLevel pl member' = Normal member') ∧
    ∀ k, k ≠ "@c:x" → members self' !! k = members twoMembers !! k.
Proof.
  apply (member_fold nameByUserId (memberEvent "@c:x" "join") "@c:x"
           twoMembers); try reflexivity.
  apply twoMembers_currentHasUsers.
Defined.

Lemma setTypingEvent_overrides_witness :
  setTypingEvent (typingEvent "!room:x" (JsArray ["@b:x"]))
    (setTypingEvent (typingEvent "!room:x" (JsArray ["@a:x"])) twoMembers).2 =
  setTypingEvent (typingEvent "!room:x" (JsArray ["@b:x"])) twoMembers.
Proof.
  apply (setTypingEvent_overrides
           (typingEvent "!room:x" (JsArray ["@a:x"]))
           (typingEvent "!room:x" (JsArray ["@b:x"])) twoMembers).
  reflexivity.
Defined.

Lemma slot_never_emptied_witness :
  ∃ e,
    getStateEvents
      (runCalls nameByUserId
         [CallSetStateEvents [powerLevelsEvent None None];
          CallSetTypingEvent (topicEvent "!room:x")] twoMembers)
      "m.room.member" (Some "@a:x") = SingleEvent (Some e).
Proof.
  apply (slot_never_emptied nameByUserId
           [CallSetStateEvents [powerLevelsEvent None None];
            CallSetTypingEvent (topicEvent "!room:x")] twoMembers).
  eexists. vm_compute. reflexivity.
Defined.

